(** * manim/_config/__init__.py: the global config and the [tempconfig] scope

    A shallow embedding of [src/manim/_config/__init__.py].

    The module binds the global name [config] to one live [ManimConfig]
    object that every collaborator shares, and defines the context manager
    [tempconfig], which overrides values of that object for the duration of
    a [with] block and puts them back on exit.

    The embedding keeps the sharing explicit: objects live in a store
    indexed by references, the global name [config] is a reference into
    that store, and [update] writes the store in place.  Python code is a
    state-and-error computation over this store ([cmd]). *)

From Stdlib Require Import QArith.
From stdpp Require Import base gmap strings fin_maps.

Set Default Proof Using "Type".

(** ** Exceptions and outcomes *)

(** Exceptions: [EUpdate] is the error a strict [update] answers an unknown
    key with, [EKey k] the [KeyError] of indexing a mapping that has no
    [k], and [EUser tag] stands for any other exception, such as one raised
    by the block enclosed in a [with] statement or by a collaborator. *)
Inductive exn : Type :=
| EUpdate
| EKey (k : string)
| EUser (tag : string).

(** The outcome of running a piece of Python code: it completes with a
    value, or an exception is propagating. *)
Inductive result (A : Type) : Type :=
| Ok (a : A)
| Raise (e : exn).
Arguments Ok {A} a.
Arguments Raise {A} e.

(** Code: a computation over a state [S] that completes or raises.  A
    raised exception keeps the state as it was when it was raised: Python
    undoes nothing. *)
Definition comp (S A : Type) : Type := S → result A * S.

Definition ret {S A} (a : A) : comp S A := λ s, (Ok a, s).

Definition raise {S A} (e : exn) : comp S A := λ s, (Raise e, s).

Definition bind {S A B} (m : comp S A) (k : A → comp S B) : comp S B :=
  λ s, match m s with
       | (Ok a, s1) => k a s1
       | (Raise e, s1) => (Raise e, s1)
       end.

Notation "'do' x <- m ; k" := (bind m (λ x, k))
  (at level 10, x name, m at level 100, k at level 200,
   format "'[v' 'do'  x  <-  m ; '/' k ']'").

(** References to objects of the store. *)
Abbreviation loc := positive.

Section ManimConfig.

(** Option values ([Any] in the source's annotations); nothing in this
    module inspects them. *)
Context {V : Type}.

(** The key/value contents of a mapping: a [dict], or the options held by a
    [ManimConfig]. *)
Abbreviation dict := (gmap string V).

(** The part of the interpreter state this module touches: the store of
    mapping objects, and the binding of the module's global name
    [config]. *)
Record world : Type := World {
  heap : gmap loc dict;
  config : loc
}.

(** The global name [config] refers to a live object. *)
Definition wf (w : world) : Prop := config w ∈ dom (heap w).

(** What the object behind the global name [config] currently holds. *)
Definition contents (w : world) : dict := heap w !!! config w.

(** Code of this module: a computation over the world. *)
Definition cmd (A : Type) : Type := comp world A.

(** ** The [ManimConfig] interface

    The class lives in [manim/_config/utils.py], which is not part of the
    sources at hand; only its uses in this module are. *)

(** Whether unknown keys make [update] fail ([true]) or are skipped
    ([false]). *)
Variable strict : bool.

(** Modelled from the spec: [ManimConfig.update] is missing from the
    sources.  The spec describes it as the bulk in-place mutation of
    existing keys only, through which no new key may be introduced; a key
    absent from the config either is not introduced or makes the call
    fail, per chosen strictness.  [update_values] computes the new contents
    of a config holding [c] from the items [m]: known keys take the value
    from [m]; with an unknown key in [m], the strict variant fails and
    leaves the config as it is, the lenient one skips the key. *)
Definition update_values (m c : dict) : result dict :=
  if strict && negb (bool_decide (dom m ⊆ dom c))
  then Raise EUpdate
  else Ok (filter (λ kv, kv.1 ∈ dom c) m ∪ c).

(** [config.update(m)]: the object behind the global name is written in
    place; the name keeps its binding. *)
Definition config_update (m : dict) : cmd unit :=
  λ w, match update_values m (contents w) with
       | Ok c => (Ok tt, World (<[config w := c]> (heap w)) (config w))
       | Raise e => (Raise e, w)
       end.

(** Modelled from the spec: [ManimConfig.copy] is missing from the
    sources.  The spec describes it as producing an independent snapshot
    whose values are detached from the original.  [config.copy()]
    allocates a new object with the contents of the live one and answers
    its reference. *)
Definition config_copy : cmd loc :=
  λ w, let l := fresh (dom (heap w)) in
       (Ok l, World (<[l := contents w]> (heap w)) (config w)).

(** Reading the items of the object behind a reference. *)
Definition items (l : loc) : cmd dict := λ w, (Ok (heap w !!! l), w).

(** Modelled from the spec: [ManimConfig.__contains__] is missing from the
    sources.  The spec lists the membership test [key in config] next to
    the fixed set of keys of a configuration object; [contains c k] tells
    whether [k] is one of the keys of a config holding [c]. *)
Definition contains (c : dict) (k : string) : bool :=
  bool_decide (k ∈ dom c).

(** ** [tempconfig] *)

(** Line 78: [{k: v for k, v in temp.items() if k in original}]. *)
Definition filter_known (original temp : dict) : dict :=
  filter (λ kv, contains original kv.1) temp.

(** The generator up to its [yield] (lines 75-86): what [__enter__] runs.
    [temp] is the items of the argument, a [ManimConfig] or a [dict]; the
    snapshot [original] stays in the generator's frame, here the result. *)
Definition tempconfig_enter (temp : dict) : cmd loc :=
  do original <- config_copy;
  do snapshot <- items original;
  let temp := filter_known snapshot temp in
  do _ <- config_update temp;
  ret original.

(** The [finally] clause (line 88). *)
Definition tempconfig_finally (original : loc) : cmd unit :=
  do snapshot <- items original;
  config_update snapshot.

(** Resuming the generator at its [yield], which is what [__exit__] does:
    with nothing pending ([next]) the [finally] clause runs and the
    generator ends; with an exception pending ([throw]) the exception is
    raised at the [yield], the [finally] clause runs, and the exception
    goes on. An exception raised by the [finally] clause itself takes its
    place. *)
Definition tempconfig_resume (original : loc) (pending : option exn)
  : cmd unit :=
  do _ <- tempconfig_finally original;
  match pending with
  | None => ret tt
  | Some e => raise e
  end.

(** A generator with a single [yield], the way [@contextmanager] drives
    it: the code up to the [yield], which leaves the generator's frame
    [F], and the code run when the generator is resumed, by [next] (nothing
    pending) or by [throw] (an exception pending). *)
Record generator (F : Type) : Type := Generator {
  gen_start : cmd F;
  gen_resume : F → option exn → cmd unit
}.
Arguments Generator {F} gen_start gen_resume.
Arguments gen_start {F} g.
Arguments gen_resume {F} g frame pending.

(** Lines 45-88: the generator function under [@contextmanager]. *)
Definition tempconfig (temp : dict) : generator loc :=
  Generator (tempconfig_enter temp) tempconfig_resume.

(** [with g: body] for a generator-based context manager: [__enter__] runs
    the generator to its [yield]; the block runs; [__exit__] resumes the
    generator, throwing into it the exception the block raised, if any.
    What the resumed generator raises is what the statement raises. *)
Definition with_stmt {F} (g : generator F) (body : cmd unit) : cmd unit :=
  do frame <- gen_start g;
  λ w, match body w with
       | (Ok _, w1) => gen_resume g frame None w1
       | (Raise e, w1) => gen_resume g frame (Some e) w1
       end.

(** The world inside the scope, before the enclosed block runs. *)
Definition inside (temp : dict) (w : world) : world :=
  snd (tempconfig_enter temp w).

(** ** Enclosed blocks

    What a block enclosed by [with tempconfig(...)] can do to the global
    config through the interface above. *)
Inductive stmt : Type :=
| SPass                                  (* pass *)
| SSetItem (k : string) (v : V)          (* config[k] = v *)
| SUpdate (m : dict)                     (* config.update(m) *)
| SRaise (e : exn)                       (* raise e *)
| SSeq (s1 s2 : stmt)                    (* s1; s2 *)
| STry (s handler : stmt)                (* try: s  except: handler *)
| SWith (temp : dict) (body : stmt)      (* with tempconfig(temp): body *)
| SRebind.                               (* config = config.copy() *)

Fixpoint exec (s : stmt) : cmd unit :=
  match s with
  | SPass => ret tt
  | SSetItem k v => config_update {[k := v]}
  | SUpdate m => config_update m
  | SRaise e => raise e
  | SSeq s1 s2 => do _ <- exec s1; exec s2
  | STry s handler =>
      λ w, match exec s w with
           | (Ok _, w1) => (Ok tt, w1)
           | (Raise _, w1) => exec handler w1
           end
  | SWith temp body => with_stmt (tempconfig temp) (exec body)
  | SRebind => do l <- config_copy; λ w, (Ok tt, World (heap w) l)
  end.

(** The block never assigns to the global name [config]. *)
Fixpoint no_rebind (s : stmt) : bool :=
  match s with
  | SPass | SSetItem _ _ | SUpdate _ | SRaise _ => true
  | SSeq s1 s2 | STry s1 s2 => no_rebind s1 && no_rebind s2
  | SWith _ body => no_rebind body
  | SRebind => false
  end.

(** ** How code changes the world

    [evolves w w'] bounds what running code of this module may have done
    between [w] and [w']: objects are only added to the store, the config
    keeps its key set, the global name refers to the object it referred to
    or to one allocated since, and no other object that was there is
    written. *)
Record evolves (w w' : world) : Prop := Evolves {
  ev_wf : wf w';
  ev_heap : dom (heap w) ⊆ dom (heap w');
  ev_keys : dom (contents w') = dom (contents w);
  ev_config : config w' = config w ∨ config w' ∉ dom (heap w);
  ev_frame : ∀ l : loc,
    l ∈ dom (heap w) → l ≠ config w → heap w' !! l = heap w !! l
}.

Definition sound {A} (c : cmd A) : Prop :=
  ∀ w r w', wf w → c w = (r, w') → evolves w w'.

End ManimConfig.

(** * Module initialization (lines 24-41)

    The statements the module runs when it is loaded.  They call into
    collaborators that are not part of the sources at hand; these are taken
    as parameters ([collaborators]), each a computation over the state of
    the process that completes or raises. *)

(** [logging.INFO]. *)
Definition INFO : Z := 20.

Section Startup.

(** What the collaborators answer: the logger and console handles, the
    CLI-context settings, the digested config and the frame. *)
Context {Logger Console CliCtx Config Frame : Type}.

(** The rest of the process state the collaborators work on. *)
Context {Ext : Type}.

(** The parser as this module uses it: a mapping from section names to
    sections, each a mapping from option names to strings. *)
Abbreviation SectionProxy := (gmap string string).
Abbreviation ConfigParser := (gmap string (gmap string string)).

(** The state of the process: the level of each logger of [logging] that
    has been given one, and whatever else the collaborators touch. *)
Record process : Type := Process {
  log_levels : gmap string Z;
  ext : Ext
}.

Record collaborators : Type := Collaborators {
  make_config_parser : comp process ConfigParser;
  make_logger : SectionProxy → string → comp process (Logger * Console * Console);
  parse_cli_ctx : SectionProxy → comp process CliCtx;
  (* ManimConfig().digest_parser(parser) *)
  digest_parser : ConfigParser → comp process Config;
  ManimFrame : Config → comp process Frame
}.

(** The calls the module makes while it loads, in the order it makes
    them. *)
Inductive event : Type :=
| EvMakeConfigParser
| EvMakeLogger (logger_section : SectionProxy) (verbosity : string)
| EvParseCliCtx (section : SectionProxy)
| EvSetLevel (name : string) (level : Z)
| EvDigestParser (parser : ConfigParser)
| EvManimFrame (config : Config).

(** Loading the module: the process state and the calls made so far. *)
Record loading : Type := Loading {
  proc : process;
  trace : list event
}.

(** The start of a load: nothing has been called. *)
Definition start (p : process) : loading := Loading p [].

(** A call: it is recorded, then it runs, and completes or raises. *)
Definition call {A} (ev : event) (f : comp process A) : comp loading A :=
  λ s, match f (proc s) with
       | (r, p) => (r, Loading p (trace s ++ [ev]))
       end.

(** [m[k]] on a mapping: a [KeyError] when the key is missing. *)
Definition getitem {A} (m : gmap string A) (k : string) : comp loading A :=
  λ s, match m !! k with
       | Some a => (Ok a, s)
       | None => (Raise (EKey k), s)
       end.

(** [logging.getLogger(name).setLevel(level)]. *)
Definition set_level (name : string) (level : Z) : comp process unit :=
  λ p, (Ok tt, Process (<[name := level]> (log_levels p)) (ext p)).

(** The module's global names once it is loaded. *)
Record module : Type := Module_ {
  parser : ConfigParser;
  logger : Logger;
  console : Console;
  error_console : Console;
  cli_ctx_settings : CliCtx;
  g_config : Config;
  frame : Frame
}.

Variable X : collaborators.

(** Lines 24-32: the parser, then the logger and the consoles from the
    parser's [logger] section and the [verbosity] of its [CLI] section. *)
Definition load_logger
  : comp loading (ConfigParser * (Logger * Console * Console)) :=
  do parser <- call EvMakeConfigParser (make_config_parser X);
  do logger_section <- getitem parser "logger";
  do cli <- getitem parser "CLI";
  do verbosity <- getitem cli "verbosity";
  do handles <- call (EvMakeLogger logger_section verbosity)
                     (make_logger X logger_section verbosity);
  ret (parser, handles).

(** Line 33. *)
Definition load_cli_ctx (parser : ConfigParser) : comp loading CliCtx :=
  do section <- getitem parser "CLI_CTX";
  call (EvParseCliCtx section) (parse_cli_ctx X section).

(** Lines 35-36. *)
Definition quiet_third_party : comp loading unit :=
  do _ <- call (EvSetLevel "PIL" INFO) (set_level "PIL" INFO);
  call (EvSetLevel "matplotlib" INFO) (set_level "matplotlib" INFO).

(** Line 38. *)
Definition load_config (parser : ConfigParser) : comp loading Config :=
  call (EvDigestParser parser) (digest_parser X parser).

(** Line 41. *)
Definition load_frame (config : Config) : comp loading Frame :=
  call (EvManimFrame config) (ManimFrame X config).

(** The module's top-level statements, in source order. *)
Definition module_init : comp loading module :=
  do logging <- load_logger;
  let '(parser, (logger, console, error_console)) := logging in
  do cli_ctx_settings <- load_cli_ctx parser;
  do _ <- quiet_third_party;
  do config <- load_config parser;
  do frame <- load_frame config;
  ret (Module_ parser logger console error_console cli_ctx_settings
               config frame).

(** Both noisy loggers are at the informational level. *)
Definition suppressed (p : process) : Prop :=
  log_levels p !! "PIL" = Some INFO
  ∧ log_levels p !! "matplotlib" = Some INFO.

(** The reading of the suppression as an effect of [make_logger]: once the
    logger has been made, both noisy loggers are suppressed. *)
Definition suppressed_by_make_logger (s : loading) : Prop :=
  ∀ made s', load_logger s = (Ok made, s') → suppressed (proc s').

(** The function an event is a call of. *)
Definition callee (ev : event) : string :=
  match ev with
  | EvMakeConfigParser => "make_config_parser"
  | EvMakeLogger _ _ => "make_logger"
  | EvParseCliCtx _ => "parse_cli_ctx"
  | EvSetLevel name _ => "setLevel " +:+ name
  | EvDigestParser _ => "digest_parser"
  | EvManimFrame _ => "ManimFrame"
  end.

(** The calls of lines 24-41, in source order. *)
Definition init_calls : list string :=
  [ "make_config_parser"; "make_logger"; "parse_cli_ctx";
    "setLevel PIL"; "setLevel matplotlib"; "digest_parser"; "ManimFrame" ].

End Startup.

(** * Example data *)

(** A few Python values, enough for the docstring's example; a float is
    given by the decimal fraction it is written as. *)
Inductive pyval : Type :=
| PyInt (n : Z)
| PyFloat (x : Q)
| PyStr (s : string).
Arguments PyFloat x%_Q.

(** The docstring's session: [config["frame_height"]] is [8.0], and the
    scope is entered with [100.0] for it; next to it an override for a key
    the config does not have. *)
Definition demo_world : @world pyval :=
  World {[ 1%positive := {[ "frame_height" := PyFloat 8.0;
                            "pixel_width" := PyInt 1920 ]} ]} 1.

Definition demo_temp : gmap string pyval :=
  {[ "frame_height" := PyFloat 100.0; "bogus_key" := PyInt 1 ]}.

(** A block that writes the config and completes, and one that writes it
    and raises. *)
Definition demo_block : @stmt pyval :=
  SSeq (SSetItem "frame_height" (PyFloat 50.0))
       (SWith {[ "frame_height" := PyFloat 1.0 ]} SPass).

Definition demo_failing_block : @stmt pyval :=
  SSeq (SSetItem "frame_height" (PyFloat 50.0)) (SRaise (EUser "ValueError")).

(** A block that replaces the object behind the global name. *)
Definition demo_rebinding_block : @stmt pyval :=
  SSeq SRebind (SSetItem "frame_height" (PyFloat 50.0)).

(** A parser with the sections the module reads. *)
Definition demo_parser : gmap string (gmap string string) :=
  {[ "logger" := {[ "log_timestamps" := "True" ]};
     "CLI" := {[ "verbosity" := "INFO" ]};
     "CLI_CTX" := {[ "align_option_groups" := "True" ]} ]}.

(** Collaborators for it: [make_logger] configures the logger named
    [manim] and no other; building the parser and digesting it fail on
    demand. *)
Definition demo_collaborators (parse_ok digest_ok : bool)
  : @collaborators string string unit (gmap string pyval) unit unit :=
  {| make_config_parser :=
       if parse_ok then ret demo_parser else raise (EUser "ParsingError");
     make_logger := λ _ _ p,
       (Ok ("manim", "console", "error_console"),
        Process (<["manim" := INFO]> (log_levels p)) (ext p));
     parse_cli_ctx := λ _, ret tt;
     digest_parser := λ _,
       if digest_ok then ret {[ "frame_height" := PyFloat 8.0 ]}
       else raise (EUser "ValueError");
     ManimFrame := λ _, ret tt |}.

(** A process in which no logger has been given a level. *)
Definition demo_process : @process unit := Process ∅ tt.

(** Overrides with no key of the config. *)
Definition demo_unknown_temp : gmap string pyval :=
  {[ "bogus_key" := PyInt 1 ]}.

(** Parsers that lack what the module reads: one without a [CLI] section,
    one without a [CLI_CTX] section. *)
Definition demo_parser_without_cli : gmap string (gmap string string) :=
  {[ "logger" := {[ "log_timestamps" := "True" ]};
     "CLI_CTX" := {[ "align_option_groups" := "True" ]} ]}.

Definition demo_parser_without_cli_ctx : gmap string (gmap string string) :=
  {[ "logger" := {[ "log_timestamps" := "True" ]};
     "CLI" := {[ "verbosity" := "INFO" ]} ]}.

(** The collaborators of [demo_collaborators], none failing, around a given
    parser. *)
Definition demo_collaborators_around (pr : gmap string (gmap string string))
  : @collaborators string string unit (gmap string pyval) unit unit :=
  {| make_config_parser := ret pr;
     make_logger := make_logger (demo_collaborators true true);
     parse_cli_ctx := parse_cli_ctx (demo_collaborators true true);
     digest_parser := digest_parser (demo_collaborators true true);
     ManimFrame := ManimFrame (demo_collaborators true true) |}.

(** * Properties of [tempconfig] *)

Section TempconfigProperties.

Context {V : Type}.
Variable strict : bool.

Implicit Types (m c o temp : gmap string V) (w : @world V) (k : string).

(** ** The bulk update *)

Lemma updated_lookup m c k :
  (filter (λ kv, kv.1 ∈ dom c) m ∪ c) !! k
  = match c !! k with
    | Some x => Some (default x (m !! k))
    | None => None
    end.
Proof.
  rewrite lookup_union, map_lookup_filter.
  destruct (c !! k) as [x|] eqn:Hc.
  - assert (k ∈ dom c) by (apply elem_of_dom; eauto).
    destruct (m !! k) as [y|]; simpl.
    + by rewrite option_guard_True.
    + done.
  - assert (k ∉ dom c) by (by apply not_elem_of_dom).
    destruct (m !! k) as [y|]; simpl.
    + by rewrite option_guard_False.
    + done.
Qed.

Lemma updated_dom m c : dom (filter (λ kv, kv.1 ∈ dom c) m ∪ c) = dom c.
Proof.
  apply set_eq. intros k. rewrite !elem_of_dom, updated_lookup.
  destruct (c !! k); simpl; split; intros [? ?]; eauto; done.
Qed.

Lemma update_values_known m c :
  dom m ⊆ dom c →
  update_values strict m c = Ok (filter (λ kv, kv.1 ∈ dom c) m ∪ c).
Proof.
  intros Hsub. unfold update_values.
  rewrite bool_decide_eq_true_2 by done. by rewrite andb_false_r.
Qed.

Lemma update_values_dom m c c' :
  update_values strict m c = Ok c' → dom c' = dom c.
Proof.
  unfold update_values. case_match; [done|].
  intros [= <-]. apply updated_dom.
Qed.

Lemma update_values_restore o c :
  dom c = dom o → update_values strict o c = Ok o.
Proof.
  intros Hdom. rewrite update_values_known by (by rewrite Hdom).
  f_equal. apply map_eq. intros k. rewrite updated_lookup.
  destruct (c !! k) as [x|] eqn:Hc.
  - assert (is_Some (o !! k)) as [y Hy].
    { apply elem_of_dom. rewrite <- Hdom. apply elem_of_dom. eauto. }
    by rewrite Hy.
  - symmetry. apply not_elem_of_dom. rewrite <- Hdom.
    by apply not_elem_of_dom.
Qed.

Lemma filter_known_dom o temp : dom (filter_known o temp) ⊆ dom o.
Proof.
  intros k [x Hx]%elem_of_dom. unfold filter_known in Hx.
  apply map_lookup_filter_Some in Hx as [_ Hin].
  by apply bool_decide_unpack in Hin.
Qed.

Lemma filter_known_lookup o temp k :
  filter_known o temp !! k
  = if decide (k ∈ dom o) then temp !! k else None.
Proof.
  unfold filter_known, contains. rewrite map_lookup_filter.
  destruct (temp !! k) as [x|]; simpl.
  - case_decide.
    + rewrite option_guard_True; [done|]. by apply bool_decide_pack.
    + rewrite option_guard_False; [done|]. by intros ?%bool_decide_unpack.
  - by case_decide.
Qed.

(** ** How code may change the world *)

Lemma evolves_refl w : wf w → evolves w w.
Proof. intros Hwf. split; auto. Qed.

Lemma evolves_trans w1 w2 w3 : evolves w1 w2 → evolves w2 w3 → evolves w1 w3.
Proof.
  intros [Hwf2 Hh12 Hk12 Hc12 Hf12] [Hwf3 Hh23 Hk23 Hc23 Hf23].
  split.
  - done.
  - by etrans.
  - congruence.
  - destruct Hc23 as [->|Hnew]; [done|]. right.
    intros Hin. by apply Hnew, Hh12.
  - intros l Hl Hne. rewrite Hf23, Hf12; auto.
    destruct Hc12 as [->|Hnew]; [done|]. intros ->. done.
Qed.

Lemma contents_insert_config (h : gmap loc (gmap string V)) (l : loc) c :
  contents (World (<[l := c]> h) l) = c.
Proof. unfold contents; simpl. apply lookup_total_insert_eq. Qed.

Lemma contents_insert_other (h : gmap loc (gmap string V)) (l l' : loc) c :
  l ≠ l' → contents (World (<[l := c]> h) l') = contents (World h l').
Proof. intros Hne. unfold contents; simpl. by apply lookup_total_insert_ne. Qed.

Lemma heap_lookup_contents w : wf w → heap w !! config w = Some (contents w).
Proof.
  intros [c Hc]%elem_of_dom. unfold contents.
  by rewrite lookup_total_alt, Hc.
Qed.

Lemma config_update_evolves m w r w' :
  wf w → config_update strict m w = (r, w') →
  evolves w w' ∧ config w' = config w.
Proof.
  intros Hwf. unfold config_update.
  destruct (update_values strict m (contents w)) as [c'|e] eqn:Hupd;
    intros [= <- <-].
  - split; [|done]. split; simpl.
    + unfold wf; simpl. rewrite dom_insert_L. set_solver.
    + rewrite dom_insert_L. set_solver.
    + rewrite contents_insert_config. by eapply update_values_dom.
    + by left.
    + intros l _ Hne. by rewrite lookup_insert_ne.
  - split; [by apply evolves_refl|done].
Qed.

Lemma config_update_known m w :
  dom m ⊆ dom (contents w) →
  config_update strict m w
  = (Ok tt, World (<[config w := filter (λ kv, kv.1 ∈ dom (contents w)) m
                                  ∪ contents w]> (heap w)) (config w)).
Proof.
  intros Hsub. unfold config_update. by rewrite update_values_known.
Qed.

Lemma config_copy_fresh w : fresh (dom (heap w)) ∉ dom (heap w).
Proof. apply is_fresh. Qed.

Lemma config_copy_evolves w :
  wf w → evolves w (snd (config_copy w)).
Proof.
  intros Hwf. pose proof (config_copy_fresh w) as Hfresh.
  assert (fresh (dom (heap w)) ≠ config w) as Hne by (intros Heq; by rewrite Heq in Hfresh).
  unfold config_copy; simpl. split; simpl.
  - unfold wf; simpl. rewrite dom_insert_L. set_solver.
  - rewrite dom_insert_L. set_solver.
  - by rewrite contents_insert_other.
  - by left.
  - intros l Hl _. rewrite lookup_insert_ne; [done|]. intros <-. done.
Qed.

(** ** Entering and leaving the scope *)

Lemma tempconfig_enter_run temp w :
  wf w →
  let c := contents w in
  let l := fresh (dom (heap w)) in
  tempconfig_enter strict temp w
  = (Ok l,
     World (<[config w := filter (λ kv, kv.1 ∈ dom c) (filter_known c temp) ∪ c]>
              (<[l := c]> (heap w)))
           (config w)).
Proof.
  intros Hwf c l. pose proof (config_copy_fresh w) as Hfresh.
  assert (l ≠ config w) as Hne by (intros Heq; subst l; by rewrite Heq in Hfresh).
  unfold tempconfig_enter, bind, config_copy, items, ret; simpl.
  fold l c. rewrite lookup_total_insert_eq.
  assert (contents (World (<[l := c]> (heap w)) (config w)) = c) as Hc.
  { by rewrite contents_insert_other. }
  rewrite config_update_known; simpl; rewrite Hc.
  - done.
  - apply filter_known_dom.
Qed.

Lemma inside_lookup temp w k :
  wf w →
  contents (inside strict temp w) !! k
  = match contents w !! k with
    | Some x => Some (default x (temp !! k))
    | None => None
    end.
Proof.
  intros Hwf. unfold inside. rewrite tempconfig_enter_run by done. simpl.
  rewrite contents_insert_config, updated_lookup.
  destruct (contents w !! k) as [x|] eqn:Hc; [|done].
  rewrite filter_known_lookup, decide_True; [done|].
  apply elem_of_dom. eauto.
Qed.

Lemma inside_evolves temp w : wf w → evolves w (inside strict temp w).
Proof.
  intros Hwf. unfold inside, tempconfig_enter, bind.
  pose proof (config_copy_evolves w Hwf) as Hcopy.
  destruct (config_copy w) as [[l|e] w1] eqn:Hc; simpl in Hcopy;
    [|by injection Hc].
  unfold items; simpl.
  destruct (config_update strict _ w1) as [[[]|e] w2] eqn:Hu; simpl.
  - eapply evolves_trans; [done|].
    eapply config_update_evolves; [apply Hcopy|done].
  - eapply evolves_trans; [done|].
    eapply config_update_evolves; [apply Hcopy|done].
Qed.

Lemma tempconfig_finally_run (original : loc) o w :
  heap w !! original = Some o → dom (contents w) = dom o →
  tempconfig_finally strict original w
  = (Ok tt, World (<[config w := o]> (heap w)) (config w)).
Proof.
  intros Ho Hdom. unfold tempconfig_finally, bind, items.
  rewrite lookup_total_alt, Ho; simpl.
  unfold config_update. by rewrite update_values_restore.
Qed.

(** The snapshot taken on entry is a fresh object holding the contents
    the config had on entry. *)
Lemma inside_snapshot temp w :
  wf w →
  let l := fresh (dom (heap w)) in
  fst (tempconfig_enter strict temp w) = Ok l
  ∧ heap (inside strict temp w) !! l = Some (contents w)
  ∧ l ≠ config (inside strict temp w)
  ∧ config (inside strict temp w) = config w.
Proof.
  intros Hwf l. pose proof (config_copy_fresh w) as Hfresh.
  assert (l ≠ config w) as Hne by (intros Heq; subst l; by rewrite Heq in Hfresh).
  unfold inside. rewrite tempconfig_enter_run by done. simpl.
  repeat split; try done.
  rewrite lookup_insert_ne by done. apply lookup_insert_eq.
Qed.

(** The whole [with] statement, for a block that stays within [evolves]:
    the outcome is the block's, and the world is the block's final world
    with the object behind [config] holding the entry contents again. *)
Lemma with_tempconfig_run temp (body : cmd unit) w r w1 :
  wf w → sound body →
  body (inside strict temp w) = (r, w1) →
  with_stmt (tempconfig strict temp) body w
  = (r, World (<[config w1 := contents w]> (heap w1)) (config w1)).
Proof.
  intros Hwf Hbody Hrun.
  destruct (inside_snapshot temp w Hwf) as (Henter & Hsnap & Hne & Hcfg).
  pose proof (inside_evolves temp w Hwf) as Hin.
  assert (evolves (inside strict temp w) w1) as Hev.
  { eapply Hbody; [apply Hin|done]. }
  assert (heap w1 !! fresh (dom (heap w)) = Some (contents w)) as Hkept.
  { rewrite <- Hsnap. apply Hev; [|done]. apply elem_of_dom. eauto. }
  assert (dom (contents w1) = dom (contents w)) as Hkeys.
  { rewrite (ev_keys _ _ Hev). apply Hin. }
  unfold with_stmt, bind; simpl. unfold inside in Hrun.
  destruct (tempconfig_enter strict temp w) as [[l|e] w0];
    simpl in Henter, Hrun; [|done].
  injection Henter as ->. rewrite Hrun.
  unfold tempconfig_resume, bind.
  rewrite (tempconfig_finally_run _ (contents w)) by done.
  by destruct r as [[]|e].
Qed.

Lemma restored_evolves w1 c :
  wf w1 → dom c = dom (contents w1) →
  evolves w1 (World (<[config w1 := c]> (heap w1)) (config w1)).
Proof.
  intros Hwf Hdom. split; simpl.
  - unfold wf; simpl. rewrite dom_insert_L.
    apply elem_of_union_l, elem_of_singleton. done.
  - rewrite dom_insert_L. apply union_subseteq_r.
  - by rewrite contents_insert_config.
  - by left.
  - intros l _ Hne. by rewrite lookup_insert_ne.
Qed.

Lemma with_tempconfig_sound temp (body : cmd unit) :
  sound body → sound (with_stmt (tempconfig strict temp) body).
Proof.
  intros Hbody w r w' Hwf Hrun.
  pose proof (inside_evolves temp w Hwf) as Hin.
  destruct (body (inside strict temp w)) as [r1 w1] eqn:Hb.
  assert (evolves (inside strict temp w) w1) as Hev.
  { eapply Hbody; [apply Hin|done]. }
  rewrite (with_tempconfig_run _ _ _ _ _ Hwf Hbody Hb) in Hrun.
  injection Hrun as <- <-.
  eapply evolves_trans; [done|]. eapply evolves_trans; [done|].
  apply restored_evolves; [apply Hev|].
  rewrite (ev_keys _ _ Hev). symmetry. apply Hin.
Qed.

Lemma bind_sound {A B} (c : @cmd V A) (k : A → @cmd V B) :
  sound c → (∀ a, sound (k a)) → sound (bind c k).
Proof.
  intros Hc Hk w r w' Hwf. unfold bind.
  destruct (c w) as [[a|e] w1] eqn:Hrun.
  - intros Hrun2. eapply evolves_trans; [by eapply Hc|].
    eapply Hk; [|done]. by eapply Hc.
  - intros [= <- <-]. by eapply Hc.
Qed.

Lemma config_update_sound m : sound (config_update strict m).
Proof. intros w r w' Hwf Hrun. by eapply config_update_evolves. Qed.

Lemma exec_sound (s : @stmt V) : sound (exec strict s).
Proof.
  induction s as [|k v|m|e|s1 IH1 s2 IH2|s1 IH1 s2 IH2|temp body IH|]; simpl.
  - intros w r w' Hwf [= <- <-]. by apply evolves_refl.
  - apply config_update_sound.
  - apply config_update_sound.
  - intros w r w' Hwf [= <- <-]. by apply evolves_refl.
  - by apply bind_sound.
  - intros w r w' Hwf.
    destruct (exec strict s1 w) as [[[]|e] w1] eqn:H1.
    + intros [= <- <-]. by eapply IH1.
    + intros H2. eapply evolves_trans; [by eapply IH1|].
      eapply IH2; [|done]. by eapply IH1.
  - by apply with_tempconfig_sound.
  - intros w r w' Hwf [= <- <-].
    pose proof (config_copy_fresh w) as Hfresh.
    split; simpl.
    + unfold wf; simpl. rewrite dom_insert_L.
      apply elem_of_union_l, elem_of_singleton. done.
    + rewrite dom_insert_L. apply union_subseteq_r.
    + by rewrite contents_insert_config.
    + by right.
    + intros l Hl _. rewrite lookup_insert_ne; [done|]. by intros <-.
Qed.

(** A block without an assignment to [config] leaves the binding alone. *)
Lemma exec_no_rebind (s : @stmt V) w r w' :
  wf w → no_rebind s = true → exec strict s w = (r, w') →
  config w' = config w.
Proof.
  revert w r w'.
  induction s as [|k v|m|e|s1 IH1 s2 IH2|s1 IH1 s2 IH2|temp body IH|];
    intros w r w' Hwf Hnr; simpl in *.
  - by intros [= <- <-].
  - intros Hrun. by eapply config_update_evolves.
  - intros Hrun. by eapply config_update_evolves.
  - by intros [= <- <-].
  - apply andb_true_iff in Hnr as [Hnr1 Hnr2]. unfold bind.
    destruct (exec strict s1 w) as [[[]|e] w1] eqn:H1.
    + intros H2.
      assert (wf w1) as Hwf1 by (by eapply exec_sound).
      rewrite (IH2 _ _ _ Hwf1 Hnr2 H2). by eapply IH1.
    + intros [= <- <-]. by eapply IH1.
  - apply andb_true_iff in Hnr as [Hnr1 Hnr2].
    destruct (exec strict s1 w) as [[[]|e] w1] eqn:H1.
    + intros [= <- <-]. by eapply IH1.
    + intros H2.
      assert (wf w1) as Hwf1 by (by eapply exec_sound).
      rewrite (IH2 _ _ _ Hwf1 Hnr2 H2). by eapply IH1.
  - destruct (exec strict body (inside strict temp w)) as [r1 w1] eqn:Hb.
    rewrite (with_tempconfig_run _ _ _ _ _ Hwf (exec_sound body) Hb).
    intros [= <- <-]; simpl.
    rewrite (IH _ _ _ (ev_wf _ _ (inside_evolves temp w Hwf)) Hnr Hb).
    by apply inside_snapshot.
  - done.
Qed.

(** [update] and the generator's exit path write the object behind
    [config] and nothing else, whatever the world. *)
Lemma config_update_in_place m w r w' :
  config_update strict m w = (r, w') →
  config w' = config w ∧ ∀ l : loc, l ≠ config w → heap w' !! l = heap w !! l.
Proof.
  unfold config_update.
  destruct (update_values strict m (contents w)); intros [= <- <-]; simpl.
  - split; [done|]. intros l Hne. by rewrite lookup_insert_ne.
  - done.
Qed.

Lemma tempconfig_resume_in_place (original : loc) pending w r w' :
  tempconfig_resume strict original pending w = (r, w') →
  config w' = config w ∧ ∀ l : loc, l ≠ config w → heap w' !! l = heap w !! l.
Proof.
  unfold tempconfig_resume, tempconfig_finally, bind, items.
  destruct (config_update strict _ w) as [[[]|e] w1] eqn:Hu;
    apply config_update_in_place in Hu.
  - by destruct pending; intros [= <- <-].
  - by intros [= <- <-].
Qed.

(** ** The claims about [tempconfig] *)

(** C1. Restore invariant: when the block enclosed by
    [with tempconfig(temp)] completes normally, so does the [with]
    statement, and afterwards every key of the global config has the value
    it had immediately before entry; when moreover the block did not
    assign to the global name, it is the very same object that holds
    them. *)
Theorem tempconfig_restores_on_normal_exit temp (body : @stmt V) w w1 :
  wf w →
  exec strict body (inside strict temp w) = (Ok tt, w1) →
  ∃ w', exec strict (SWith temp body) w = (Ok tt, w')
        ∧ contents w' = contents w
        ∧ (∀ k, contents w' !! k = contents w !! k)
        ∧ (no_rebind body = true →
           config w' = config w ∧ heap w' !! config w = heap w !! config w).
Proof.
  intros Hwf Hrun. eexists. split; [|split; [|split]].
  - simpl. by apply with_tempconfig_run; [|apply exec_sound|].
  - apply contents_insert_config.
  - intros k. by rewrite contents_insert_config.
  - intros Hnr; simpl.
    assert (config w1 = config w) as ->.
    { rewrite (exec_no_rebind body _ _ _
                 (ev_wf _ _ (inside_evolves temp w Hwf)) Hnr Hrun).
      by apply inside_snapshot. }
    split; [done|]. rewrite lookup_insert_eq. symmetry.
    by apply heap_lookup_contents.
Qed.

(** C2. Restore-on-error invariant: when the enclosed block raises [e],
    the [finally] clause runs from the world the block left and completes,
    which puts the entry values back, and the [with] statement then raises
    that same [e]. *)
Theorem tempconfig_restores_then_propagates temp (body : @stmt V) w e w1 :
  wf w →
  exec strict body (inside strict temp w) = (Raise e, w1) →
  ∃ (original : loc) w',
    fst (tempconfig_enter strict temp w) = Ok original
    ∧ tempconfig_finally strict original w1 = (Ok tt, w')
    ∧ exec strict (SWith temp body) w = (Raise e, w')
    ∧ contents w' = contents w.
Proof.
  intros Hwf Hrun.
  destruct (inside_snapshot temp w Hwf) as (Henter & Hsnap & Hne & Hcfg).
  pose proof (inside_evolves temp w Hwf) as Hin.
  pose proof (exec_sound body _ _ _ (ev_wf _ _ Hin) Hrun) as Hev.
  eexists _, _. split; [done|]. split; [|split].
  - apply (tempconfig_finally_run _ (contents w)).
    + rewrite <- Hsnap. apply Hev; [|done]. apply elem_of_dom. eauto.
    + rewrite (ev_keys _ _ Hev). apply Hin.
  - simpl. by apply with_tempconfig_run; [|apply exec_sound|].
  - apply contents_insert_config.
Qed.

(** C3. Unknown-key drop: the overrides that reach [update] are those of
    [temp] whose key the config has; entering the scope completes, also
    under a strict [update]; the [with] statement ends the way the enclosed
    block ends, with no error of its own; and a key the config does not
    have is in the config neither inside the scope nor after it. *)
Theorem tempconfig_drops_unknown_keys temp w :
  wf w →
  (∀ k, filter_known (contents w) temp !! k
        = if decide (k ∈ dom (contents w)) then temp !! k else None)
  ∧ (∃ original : loc,
       tempconfig_enter strict temp w = (Ok original, inside strict temp w))
  ∧ (∀ (body : @stmt V) r w1,
       exec strict body (inside strict temp w) = (r, w1) →
       fst (exec strict (SWith temp body) w) = r)
  ∧ (∀ k, k ∉ dom (contents w) →
       (k ∉ dom (contents (inside strict temp w)))
       ∧ ∀ (body : @stmt V) r w',
           exec strict (SWith temp body) w = (r, w') →
           k ∉ dom (contents w')).
Proof.
  intros Hwf. split; [|split; [|split]].
  - intros k. apply filter_known_lookup.
  - unfold inside. rewrite tempconfig_enter_run by done. eauto.
  - intros body r w1 Hrun. simpl.
    by rewrite (with_tempconfig_run _ _ _ _ _ Hwf (exec_sound body) Hrun).
  - intros k Hk. split.
    + by rewrite (ev_keys _ _ (inside_evolves temp w Hwf)).
    + intros body r w' Hrun.
      by rewrite (ev_keys _ _ (exec_sound _ _ _ _ Hwf Hrun)).
Qed.

(** C4. Inside the scope, a key of [temp] that the config had on entry maps
    to the value [temp] gives it. *)
Theorem tempconfig_applies_overrides temp w k v :
  wf w →
  temp !! k = Some v →
  k ∈ dom (contents w) →
  contents (inside strict temp w) !! k = Some v.
Proof.
  intros Hwf Hk [x Hx]%elem_of_dom.
  by rewrite inside_lookup, Hx, Hk.
Qed.

(** C5. Singleton identity: entering the scope and leaving it keep the
    global name [config] bound to the same object and write no other
    object that was there; across the whole [with] statement the binding is
    the one from before entry unless the enclosed block itself assigns to
    the name. *)
Theorem tempconfig_keeps_the_singleton temp w :
  wf w →
  config (inside strict temp w) = config w
  ∧ (∀ l : loc, l ∈ dom (heap w) → l ≠ config w →
       heap (inside strict temp w) !! l = heap w !! l)
  ∧ (∀ (original : loc) pending w1 r w2,
       tempconfig_resume strict original pending w1 = (r, w2) →
       config w2 = config w1
       ∧ ∀ l : loc, l ≠ config w1 → heap w2 !! l = heap w1 !! l)
  ∧ (∀ (body : @stmt V) r w',
       no_rebind body = true →
       exec strict (SWith temp body) w = (r, w') →
       config w' = config w
       ∧ ∀ l : loc, l ∈ dom (heap w) → l ≠ config w →
           heap w' !! l = heap w !! l).
Proof.
  intros Hwf. split; [|split; [|split]].
  - by apply inside_snapshot.
  - apply (inside_evolves temp w Hwf).
  - intros original pending w1 r w2. apply tempconfig_resume_in_place.
  - intros body r w' Hnr Hrun. split.
    + by apply (exec_no_rebind (SWith temp body) w r w').
    + apply (exec_sound _ _ _ _ Hwf Hrun).
Qed.

(** C6. The key set of the global config is the same before entry, inside
    the scope and after exit; no statement of an enclosed block changes it
    either. *)
Theorem tempconfig_preserves_key_set temp w :
  wf w →
  dom (contents (inside strict temp w)) = dom (contents w)
  ∧ (∀ (body : @stmt V) r w',
       exec strict (SWith temp body) w = (r, w') →
       dom (contents w') = dom (contents w))
  ∧ (∀ (s : @stmt V) r w',
       exec strict s w = (r, w') → dom (contents w') = dom (contents w)).
Proof.
  intros Hwf. split; [|split].
  - apply (inside_evolves temp w Hwf).
  - intros body r w' Hrun. apply (exec_sound _ _ _ _ Hwf Hrun).
  - intros s r w' Hrun. apply (exec_sound _ _ _ _ Hwf Hrun).
Qed.

(** C10. Frame condition inside the scope: a key that is not among the
    filtered overrides has, inside the scope, what it had immediately
    before entry. *)
Theorem tempconfig_leaves_other_keys temp w k :
  wf w →
  filter_known (contents w) temp !! k = None →
  contents (inside strict temp w) !! k = contents w !! k.
Proof.
  intros Hwf Hk. rewrite inside_lookup by done.
  destruct (contents w !! k) as [x|] eqn:Hx; [|done].
  rewrite filter_known_lookup, decide_True in Hk
    by (apply elem_of_dom; eauto).
  by rewrite Hk.
Qed.

End TempconfigProperties.

(** * Properties of the module initialization *)

Section StartupProperties.

Context {Logger Console CliCtx Config Frame Ext : Type}.

Abbreviation collaboratorsT :=
  (@collaborators Logger Console CliCtx Config Frame Ext).
Abbreviation loadingT := (@loading Config Ext).

Implicit Types (X : collaboratorsT) (s : loadingT) (e : exn).

(** A statement that raises ends the sequence it is in. *)
Lemma bind_raise {S A B} (m : comp S A) (k : A → comp S B) (st st' : S) e :
  m st = (Raise e, st') → bind m k st = (Raise e, st').
Proof. intros Hm. unfold bind. by rewrite Hm. Qed.

Lemma bind_ok {S A B} (m : comp S A) (k : A → comp S B) (st st' : S) a :
  m st = (Ok a, st') → bind m k st = k a st'.
Proof. intros Hm. unfold bind. by rewrite Hm. Qed.

(** Inverting a completed sequence. *)
Lemma bind_ok_inv {S A B} (m : comp S A) (k : A → comp S B) (st st' : S) b :
  bind m k st = (Ok b, st') →
  ∃ a st1, m st = (Ok a, st1) ∧ k a st1 = (Ok b, st').
Proof.
  unfold bind. destruct (m st) as [[a|e] st1]; [eauto|done].
Qed.

Lemma call_inv {A} (ev : @event Config) (f : comp (@process Ext) A) s r s' :
  call ev f s = (r, s') →
  ∃ p, f (proc s) = (r, p) ∧ s' = Loading p (trace s ++ [ev]).
Proof.
  unfold call. destruct (f (proc s)) as [r1 p]. intros [= <- <-]. eauto.
Qed.

Lemma getitem_ok_inv {A} (m : gmap string A) (k : string) s a s' :
  getitem m k s = (Ok a, s') → m !! k = Some a ∧ s' = s.
Proof.
  unfold getitem. destruct (m !! k); [|done]. by intros [= <- <-].
Qed.

Lemma load_logger_inv X s parser handles s' :
  load_logger X s = (Ok (parser, handles), s') →
  ∃ logger_section cli verbosity p1 p2,
    make_config_parser X (proc s) = (Ok parser, p1)
    ∧ parser !! "logger" = Some logger_section
    ∧ parser !! "CLI" = Some cli
    ∧ cli !! "verbosity" = Some verbosity
    ∧ make_logger X logger_section verbosity p1 = (Ok handles, p2)
    ∧ s' = Loading p2 (trace s ++ [EvMakeConfigParser;
                                   EvMakeLogger logger_section verbosity]).
Proof.
  unfold load_logger. intros Hrun.
  apply bind_ok_inv in Hrun as (parser' & s1 & (p1 & Hparse & ->)%call_inv & Hrun).
  apply bind_ok_inv in Hrun as (logger_section & ? & [Hsec ->]%getitem_ok_inv & Hrun).
  apply bind_ok_inv in Hrun as (cli & ? & [Hcli ->]%getitem_ok_inv & Hrun).
  apply bind_ok_inv in Hrun as (verbosity & ? & [Hverb ->]%getitem_ok_inv & Hrun).
  apply bind_ok_inv in Hrun as (handles' & s2 & (p2 & Hmake & ->)%call_inv & Hrun).
  injection Hrun as <- <- <-. simpl in *.
  exists logger_section, cli, verbosity, p1, p2.
  by rewrite <- app_assoc.
Qed.

Lemma quiet_third_party_run s :
  quiet_third_party s
  = (Ok tt,
     Loading (Process (<["matplotlib" := INFO]>
                         (<["PIL" := INFO]> (log_levels (proc s))))
                      (ext (proc s)))
             (trace s ++ [EvSetLevel "PIL" INFO; EvSetLevel "matplotlib" INFO])).
Proof.
  unfold quiet_third_party, bind, call, set_level; simpl.
  by rewrite <- app_assoc.
Qed.

(** ** The claims about the module initialization *)

(** C7. Initialization order: a load of the module that completes has made
    exactly these calls, once each and in this order, each from the state
    the one before left: the parser is built; the logger and consoles are
    made from the parser's [logger] section and the [verbosity] of its
    [CLI] section; the CLI-context settings are parsed from its [CLI_CTX]
    section; the loggers [PIL] and [matplotlib] are set to the
    informational level; the parser is digested into [config]; the frame is
    built from [config]. *)
Theorem module_init_order X s m s' :
  module_init X s = (Ok m, s') →
  ∃ logger_section cli verbosity section p1 p2 p3 p5,
    make_config_parser X (proc s) = (Ok (parser m), p1)
    ∧ parser m !! "logger" = Some logger_section
    ∧ parser m !! "CLI" = Some cli
    ∧ cli !! "verbosity" = Some verbosity
    ∧ make_logger X logger_section verbosity p1
      = (Ok (logger m, console m, error_console m), p2)
    ∧ parser m !! "CLI_CTX" = Some section
    ∧ parse_cli_ctx X section p2 = (Ok (cli_ctx_settings m), p3)
    ∧ digest_parser X (parser m)
        (Process (<["matplotlib" := INFO]> (<["PIL" := INFO]> (log_levels p3)))
                 (ext p3))
      = (Ok (g_config m), p5)
    ∧ ManimFrame X (g_config m) p5 = (Ok (frame m), proc s')
    ∧ trace s' = trace s ++
        [ EvMakeConfigParser;
          EvMakeLogger logger_section verbosity;
          EvParseCliCtx section;
          EvSetLevel "PIL" INFO;
          EvSetLevel "matplotlib" INFO;
          EvDigestParser (parser m);
          EvManimFrame (g_config m) ].
Proof.
  unfold module_init. intros Hrun.
  apply bind_ok_inv in Hrun
    as ([parser [[logger console] error_console]] & s1 & Hlog & Hrun).
  apply load_logger_inv in Hlog
    as (logger_section & cli & verbosity & p1 & p2
        & Hparse & Hsec & Hcli & Hverb & Hmake & ->).
  apply bind_ok_inv in Hrun as (ctx & s2 & Hctx & Hrun).
  unfold load_cli_ctx in Hctx.
  apply bind_ok_inv in Hctx
    as (section & ? & [Hctxsec ->]%getitem_ok_inv & Hctx).
  apply call_inv in Hctx as (p3 & Hcli_ctx & ->).
  apply bind_ok_inv in Hrun as ([] & s3 & Hquiet & Hrun).
  rewrite quiet_third_party_run in Hquiet. injection Hquiet as <-.
  apply bind_ok_inv in Hrun
    as (config & s4 & (p5 & Hdigest & ->)%call_inv & Hrun).
  apply bind_ok_inv in Hrun
    as (frame & s5 & (p6 & Hframe & ->)%call_inv & Hrun).
  injection Hrun as <- <-. simpl in *.
  exists logger_section, cli, verbosity, section, p1, p2, p3, p5.
  repeat split; try done.
  by rewrite <- !app_assoc.
Qed.

(** C8, amended. The third-party loggers are silenced by the module's own
    statements: once [make_logger] and [parse_cli_ctx] have returned,
    whatever they did, the module sets the levels of [PIL] and [matplotlib]
    to the informational level, changes nothing else, and only then goes on
    to digest the parser. *)
Theorem third_party_loggers_suppressed_by_module X s parser handles s2 ctx s3 :
  load_logger X s = (Ok (parser, handles), s2) →
  load_cli_ctx X parser s2 = (Ok ctx, s3) →
  ∃ s4,
    quiet_third_party s3 = (Ok tt, s4)
    ∧ suppressed (proc s4)
    ∧ log_levels (proc s4)
      = <["matplotlib" := INFO]> (<["PIL" := INFO]> (log_levels (proc s3)))
    ∧ ext (proc s4) = ext (proc s3)
    ∧ trace s4
      = trace s3 ++ [EvSetLevel "PIL" INFO; EvSetLevel "matplotlib" INFO]
    ∧ module_init X s
      = bind (load_config X parser)
          (λ config,
             bind (load_frame X config)
               (λ frame,
                  ret (Module_ parser handles.1.1 handles.1.2 handles.2
                               ctx config frame)))
          s4.
Proof.
  intros Hlog Hctx. eexists. split; [apply quiet_third_party_run|].
  repeat split; simpl.
  - rewrite lookup_insert_ne by done. apply lookup_insert_eq.
  - apply lookup_insert_eq.
  - unfold module_init. rewrite (bind_ok _ _ _ _ _ Hlog).
    destruct handles as [[logger console] error_console].
    rewrite (bind_ok _ _ _ _ _ Hctx).
    by rewrite (bind_ok _ _ _ _ _ (quiet_third_party_run s3)).
Qed.

(** C9. A failure while the parser is built, or while it is digested, ends
    the load at once: the module's initialization raises that same error
    from the state the failing call left, and the failing call is the last
    call made. *)
Theorem startup_failure_is_fatal X s e s' :
  call EvMakeConfigParser (make_config_parser X) s = (Raise e, s')
  ∨ (∃ parser handles s2 ctx s3 s4,
       load_logger X s = (Ok (parser, handles), s2)
       ∧ load_cli_ctx X parser s2 = (Ok ctx, s3)
       ∧ quiet_third_party s3 = (Ok tt, s4)
       ∧ load_config X parser s4 = (Raise e, s')) →
  module_init X s = (Raise e, s')
  ∧ (last (trace s') = Some EvMakeConfigParser
     ∨ ∃ parser, last (trace s') = Some (EvDigestParser parser)).
Proof.
  intros [Hparse|(parser & handles & s2 & ctx & s3 & s4 & Hlog & Hctx & Hquiet & Hdigest)].
  - split.
    + unfold module_init, load_logger. by do 2 apply bind_raise.
    + left. apply call_inv in Hparse as (p & _ & ->). simpl. apply last_snoc.
  - split.
    + unfold module_init. rewrite (bind_ok _ _ _ _ _ Hlog).
      destruct handles as [[logger console] error_console].
      rewrite (bind_ok _ _ _ _ _ Hctx), (bind_ok _ _ _ _ _ Hquiet).
      by apply bind_raise.
    + right. exists parser. apply call_inv in Hdigest as (p & _ & ->).
      simpl. apply last_snoc.
Qed.

End StartupProperties.

(** * The claims at concrete inputs *)

Lemma demo_world_wf : wf demo_world.
Proof. unfold wf; simpl. rewrite dom_singleton_L. by apply elem_of_singleton. Defined.

(** The docstring's example, with an unknown key among the overrides and
    under the strict [update]: inside the scope the height is [100.0] and
    [bogus_key] is not in the config; after it the height is [8.0]. *)
Example docstring_session :
  contents demo_world !! "frame_height" = Some (PyFloat 8.0)
  ∧ contents (inside true demo_temp demo_world) !! "frame_height"
    = Some (PyFloat 100.0)
  ∧ contents (inside true demo_temp demo_world) !! "bogus_key" = None
  ∧ fst (exec true (SWith demo_temp SPass) demo_world) = Ok tt
  ∧ contents (snd (exec true (SWith demo_temp SPass) demo_world))
      !! "frame_height" = Some (PyFloat 8.0).
Proof. vm_compute. done. Qed.

(** Without the filter of line 78, a strict [update] would reject the
    same overrides. *)
Example strict_update_rejects_unknown_key :
  config_update true demo_temp demo_world = (Raise EUpdate, demo_world).
Proof. vm_compute. done. Qed.

(** After a block that replaces the object behind [config], the global
    name again reads the entry values, but the object that was shared
    before keeps what the block and the overrides wrote. *)
Example rebinding_strands_the_shared_object :
  let w' := snd (exec true (SWith demo_temp demo_rebinding_block) demo_world) in
  contents w' !! "frame_height" = Some (PyFloat 8.0)
  ∧ config w' ≠ config demo_world
  ∧ heap w' !! config demo_world
    = Some {[ "frame_height" := PyFloat 100.0; "pixel_width" := PyInt 1920 ]}.
Proof. vm_compute. repeat split; done. Qed.

Lemma tempconfig_restores_on_normal_exit_witness :
  wf demo_world
  ∧ ∃ w', exec true (SWith demo_temp demo_block) demo_world = (Ok tt, w')
          ∧ contents w' = contents demo_world
          ∧ (∀ k, contents w' !! k = contents demo_world !! k)
          ∧ (no_rebind demo_block = true →
             config w' = config demo_world
             ∧ heap w' !! config demo_world
               = heap demo_world !! config demo_world).
Proof.
  split; [exact demo_world_wf|].
  apply (tempconfig_restores_on_normal_exit true demo_temp demo_block
           demo_world
           (snd (exec true demo_block (inside true demo_temp demo_world)))).
  - exact demo_world_wf.
  - vm_compute. reflexivity.
Defined.

Lemma tempconfig_restores_then_propagates_witness :
  wf demo_world
  ∧ ∃ (original : loc) w',
      fst (tempconfig_enter true demo_temp demo_world) = Ok original
      ∧ tempconfig_finally true original
          (snd (exec true demo_failing_block
                  (inside true demo_temp demo_world)))
        = (Ok tt, w')
      ∧ exec true (SWith demo_temp demo_failing_block) demo_world
        = (Raise (EUser "ValueError"), w')
      ∧ contents w' = contents demo_world.
Proof.
  split; [exact demo_world_wf|].
  apply (tempconfig_restores_then_propagates true demo_temp
           demo_failing_block demo_world (EUser "ValueError")).
  - exact demo_world_wf.
  - vm_compute. reflexivity.
Defined.

Lemma tempconfig_drops_unknown_keys_witness :
  wf demo_world
  ∧ (∀ k, filter_known (contents demo_world) demo_temp !! k
          = if decide (k ∈ dom (contents demo_world))
            then demo_temp !! k else None)
  ∧ (∃ original : loc,
       tempconfig_enter true demo_temp demo_world
       = (Ok original, inside true demo_temp demo_world))
  ∧ (∀ (body : @stmt pyval) r w1,
       exec true body (inside true demo_temp demo_world) = (r, w1) →
       fst (exec true (SWith demo_temp body) demo_world) = r)
  ∧ (∀ k, k ∉ dom (contents demo_world) →
       (k ∉ dom (contents (inside true demo_temp demo_world)))
       ∧ ∀ (body : @stmt pyval) r w',
           exec true (SWith demo_temp body) demo_world = (r, w') →
           k ∉ dom (contents w')).
Proof.
  split; [exact demo_world_wf|].
  apply (tempconfig_drops_unknown_keys true demo_temp demo_world).
  exact demo_world_wf.
Defined.

Lemma tempconfig_applies_overrides_witness :
  wf demo_world
  ∧ demo_temp !! "frame_height" = Some (PyFloat 100.0)
  ∧ "frame_height" ∈ dom (contents demo_world)
  ∧ contents (inside true demo_temp demo_world) !! "frame_height"
    = Some (PyFloat 100.0).
Proof.
  assert ("frame_height" ∈ dom (contents demo_world)) as Hin.
  { apply elem_of_dom. exists (PyFloat 8.0). vm_compute. reflexivity. }
  split; [exact demo_world_wf|]. split; [vm_compute; reflexivity|].
  split; [exact Hin|].
  apply (tempconfig_applies_overrides true demo_temp demo_world
           "frame_height" (PyFloat 100.0)).
  - exact demo_world_wf.
  - vm_compute. reflexivity.
  - exact Hin.
Defined.

Lemma tempconfig_keeps_the_singleton_witness :
  wf demo_world
  ∧ config (inside true demo_temp demo_world) = config demo_world
  ∧ (∀ l : loc, l ∈ dom (heap demo_world) → l ≠ config demo_world →
       heap (inside true demo_temp demo_world) !! l = heap demo_world !! l)
  ∧ (∀ (original : loc) pending (w1 : @world pyval) r w2,
       tempconfig_resume true original pending w1 = (r, w2) →
       config w2 = config w1
       ∧ ∀ l : loc, l ≠ config w1 → heap w2 !! l = heap w1 !! l)
  ∧ (∀ (body : @stmt pyval) r w',
       no_rebind body = true →
       exec true (SWith demo_temp body) demo_world = (r, w') →
       config w' = config demo_world
       ∧ ∀ l : loc, l ∈ dom (heap demo_world) → l ≠ config demo_world →
           heap w' !! l = heap demo_world !! l).
Proof.
  split; [exact demo_world_wf|].
  apply (tempconfig_keeps_the_singleton true demo_temp demo_world).
  exact demo_world_wf.
Defined.

Lemma tempconfig_preserves_key_set_witness :
  wf demo_world
  ∧ dom (contents (inside true demo_temp demo_world))
    = dom (contents demo_world)
  ∧ (∀ (body : @stmt pyval) r w',
       exec true (SWith demo_temp body) demo_world = (r, w') →
       dom (contents w') = dom (contents demo_world))
  ∧ (∀ (s : @stmt pyval) r w',
       exec true s demo_world = (r, w') →
       dom (contents w') = dom (contents demo_world)).
Proof.
  split; [exact demo_world_wf|].
  apply (tempconfig_preserves_key_set true demo_temp demo_world).
  exact demo_world_wf.
Defined.

Lemma tempconfig_leaves_other_keys_witness :
  wf demo_world
  ∧ filter_known (contents demo_world) demo_temp !! "pixel_width" = None
  ∧ contents (inside true demo_temp demo_world) !! "pixel_width"
    = contents demo_world !! "pixel_width".
Proof.
  split; [exact demo_world_wf|]. split; [vm_compute; reflexivity|].
  apply (tempconfig_leaves_other_keys true demo_temp demo_world "pixel_width").
  - exact demo_world_wf.
  - vm_compute. reflexivity.
Defined.

(** C8 as stated fails: with a [make_logger] that configures the logger
    named [manim] and no other, the noisy loggers are not suppressed once
    the logger has been made; their levels are set by the statements of
    lines 35-36. *)
Lemma suppression_is_not_an_effect_of_make_logger :
  ¬ suppressed_by_make_logger (demo_collaborators true true)
      (start demo_process).
Proof.
  intros Hclaim.
  destruct (Hclaim
              (demo_parser, ("manim", "console", "error_console"))
              (snd (load_logger (demo_collaborators true true)
                      (start demo_process))))
    as [HPIL _].
  - vm_compute. reflexivity.
  - vm_compute in HPIL. discriminate HPIL.
Qed.

Lemma module_init_order_witness :
  let X := demo_collaborators true true in
  let s := start demo_process in
  let m := Module_ demo_parser "manim" "console" "error_console" tt
                   {[ "frame_height" := PyFloat 8.0 ]} tt in
  module_init X s = (Ok m, snd (module_init X s))
  ∧ trace (snd (module_init X s))
    = [ EvMakeConfigParser;
        EvMakeLogger {[ "log_timestamps" := "True" ]} "INFO";
        EvParseCliCtx {[ "align_option_groups" := "True" ]};
        EvSetLevel "PIL" INFO;
        EvSetLevel "matplotlib" INFO;
        EvDigestParser demo_parser;
        EvManimFrame {[ "frame_height" := PyFloat 8.0 ]} ].
Proof.
  intros X s m.
  assert (module_init X s = (Ok m, snd (module_init X s))) as Hrun.
  { vm_compute. reflexivity. }
  split; [exact Hrun|].
  destruct (module_init_order X s m _ Hrun)
    as (logger_section & cli & verbosity & section & p1 & p2 & p3 & p5
        & _ & Hsec & Hcli & Hverb & _ & Hctx & _ & _ & _ & Htrace).
  vm_compute in Hsec, Hcli, Hctx.
  injection Hsec as <-. injection Hcli as <-. injection Hctx as <-.
  vm_compute in Hverb. injection Hverb as <-.
  exact Htrace.
Defined.

Lemma third_party_loggers_suppressed_by_module_witness :
  let X := demo_collaborators true true in
  let s := start demo_process in
  let handles := ("manim", "console", "error_console") in
  let s2 := snd (load_logger X s) in
  let s3 := snd (load_cli_ctx X demo_parser s2) in
  load_logger X s = (Ok (demo_parser, handles), s2)
  ∧ load_cli_ctx X demo_parser s2 = (Ok tt, s3)
  ∧ ¬ suppressed (proc s3)
  ∧ ∃ s4, quiet_third_party s3 = (Ok tt, s4) ∧ suppressed (proc s4).
Proof.
  intros X s handles s2 s3.
  assert (load_logger X s = (Ok (demo_parser, handles), s2)) as Hlog.
  { vm_compute. reflexivity. }
  assert (load_cli_ctx X demo_parser s2 = (Ok tt, s3)) as Hctx.
  { vm_compute. reflexivity. }
  split; [exact Hlog|]. split; [exact Hctx|]. split.
  - intros [HPIL _]. vm_compute in HPIL. discriminate HPIL.
  - destruct (third_party_loggers_suppressed_by_module
                X s demo_parser handles s2 tt s3 Hlog Hctx)
      as (s4 & Hquiet & Hsup & _).
    exists s4. split; [exact Hquiet|exact Hsup].
Defined.

Lemma startup_failure_is_fatal_witness :
  (let X := demo_collaborators false true in
   let s := start demo_process in
   module_init X s
   = (Raise (EUser "ParsingError"), Loading demo_process [EvMakeConfigParser]))
  ∧ (let X := demo_collaborators true false in
     let s := start demo_process in
     let s' := snd (module_init X s) in
     module_init X s = (Raise (EUser "ValueError"), s')
     ∧ last (trace s') = Some (EvDigestParser demo_parser)).
Proof.
  split.
  - intros X s.
    apply (startup_failure_is_fatal X s (EUser "ParsingError")
             (Loading demo_process [EvMakeConfigParser])).
    left. vm_compute. reflexivity.
  - intros X s s'.
    assert (module_init X s = (Raise (EUser "ValueError"), s')
            ∧ (last (trace s') = Some EvMakeConfigParser
               ∨ ∃ parser, last (trace s') = Some (EvDigestParser parser)))
      as [Hrun Hlast].
    { apply (startup_failure_is_fatal X s (EUser "ValueError") s').
      right.
      exists demo_parser, ("manim", "console", "error_console"),
        (snd (load_logger X s)), tt,
        (snd (load_cli_ctx X demo_parser (snd (load_logger X s)))),
        (snd (quiet_third_party
                (snd (load_cli_ctx X demo_parser (snd (load_logger X s)))))).
      repeat split; vm_compute; reflexivity. }
    split; [exact Hrun|].
    vm_compute. reflexivity.
Defined.

(** * Further properties of [tempconfig] *)

Section TempconfigScopes.

Context {V : Type}.
Variable strict : bool.

Implicit Types (temp : gmap string V) (w : @world V) (k : string).

(** The snapshot of line 76 is a new object, never the live config; it
    holds the entry contents when the block starts and still holds them
    whatever the block did, so that line 88 reads the entry contents. *)
Theorem snapshot_is_isolated temp w (original : loc) w_in :
  wf w →
  tempconfig_enter strict temp w = (Ok original, w_in) →
  (original ∉ dom (heap w))
  ∧ original ≠ config w_in
  ∧ heap w_in !! original = Some (contents w)
  ∧ ∀ (body : @stmt V) r w1,
      exec strict body w_in = (r, w1) →
      heap w1 !! original = Some (contents w) ∧ original ≠ config w1.
Proof.
  intros Hwf Henter.
  destruct (inside_snapshot strict temp w Hwf) as (Hl & Hsnap & Hne & Hcfg).
  pose proof (inside_evolves strict temp w Hwf) as Hin.
  unfold inside in *. rewrite Henter in *. simpl in *.
  injection Hl as ->.
  assert (fresh (dom (heap w)) ∈ dom (heap w_in)) as Hlive.
  { apply elem_of_dom. eauto. }
  split; [apply config_copy_fresh|]. split; [done|]. split; [done|].
  intros body r w1 Hrun.
  pose proof (exec_sound strict body _ _ _ (ev_wf _ _ Hin) Hrun) as Hev.
  split.
  - rewrite <- Hsnap. by apply Hev.
  - destruct (ev_config _ _ Hev) as [->|Hnew]; [done|].
    intros Heq. apply Hnew. by rewrite <- Heq.
Qed.

(** Overrides none of whose keys the config has, the empty overrides among
    them, leave the config inside the scope exactly as it was before
    entry. *)
Theorem overrides_without_known_key_change_nothing temp w :
  wf w →
  dom temp ## dom (contents w) →
  contents (inside strict temp w) = contents w
  ∧ heap (inside strict temp w) !! config w = heap w !! config w.
Proof.
  intros Hwf Hdisj.
  assert (contents (inside strict temp w) = contents w) as Heq.
  { apply map_eq. intros k. rewrite inside_lookup by done.
    destruct (contents w !! k) as [x|] eqn:Hx; [|done].
    assert (temp !! k = None) as ->; [|done].
    apply not_elem_of_dom. intros Hk. apply (Hdisj k Hk).
    apply elem_of_dom. eauto. }
  split; [done|].
  rewrite (heap_lookup_contents w Hwf), <- Heq.
  destruct (inside_snapshot strict temp w Hwf) as (_ & _ & _ & <-).
  apply heap_lookup_contents, (inside_evolves strict temp w Hwf).
Qed.

(** A scope nested in another: inside the inner scope the inner overrides
    are in force; when the inner scope is left, however its block ended,
    the config is as the outer scope had it, outer overrides included; when
    the outer scope is left it is as before the outer entry, and the
    block's outcome has passed through both. *)
Theorem nested_scope_restores_outer_overrides temp1 temp2 (body : @stmt V) w r w' :
  wf w →
  exec strict (SWith temp2 body) (inside strict temp1 w) = (r, w') →
  (∀ k v, temp2 !! k = Some v → k ∈ dom (contents w) →
     contents (inside strict temp2 (inside strict temp1 w)) !! k = Some v)
  ∧ contents w' = contents (inside strict temp1 w)
  ∧ (∀ k v, temp1 !! k = Some v → k ∈ dom (contents w) →
       contents w' !! k = Some v)
  ∧ ∃ w'', exec strict (SWith temp1 (SWith temp2 body)) w = (r, w'')
           ∧ contents w'' = contents w.
Proof.
  intros Hwf Hrun.
  pose proof (inside_evolves strict temp1 w Hwf) as Hin1.
  pose proof (ev_wf _ _ Hin1) as Hwf1.
  assert (contents w' = contents (inside strict temp1 w)) as Hinner.
  { simpl in Hrun.
    destruct (exec strict body (inside strict temp2 (inside strict temp1 w)))
      as [r2 w2] eqn:Hbody.
    rewrite (with_tempconfig_run strict _ _ _ _ _ Hwf1 (exec_sound strict body) Hbody)
      in Hrun.
    injection Hrun as <- <-. apply contents_insert_config. }
  split; [|split; [done|split]].
  - intros k v Hk Hin. rewrite inside_lookup by done.
    assert (is_Some (contents (inside strict temp1 w) !! k)) as [x ->].
    { apply elem_of_dom. by rewrite (ev_keys _ _ Hin1). }
    by rewrite Hk.
  - intros k v Hk [x Hx]%elem_of_dom.
    by rewrite Hinner, inside_lookup, Hx, Hk.
  - eexists. split.
    + change (exec strict (SWith temp1 (SWith temp2 body)))
        with (with_stmt (tempconfig strict temp1)
                (exec strict (SWith temp2 body))).
      by apply with_tempconfig_run; [|apply exec_sound|].
    + apply contents_insert_config.
Qed.

(** A handler around the scope: when the block raises and the [with]
    statement sits in a [try], the handler starts from a config that
    already reads the entry values. *)
Theorem handler_after_scope_sees_entry_values
    temp (body handler : @stmt V) w e w1 :
  wf w →
  exec strict body (inside strict temp w) = (Raise e, w1) →
  ∃ w2, exec strict (STry (SWith temp body) handler) w
        = exec strict handler w2
        ∧ wf w2
        ∧ contents w2 = contents w
        ∧ (no_rebind body = true → config w2 = config w).
Proof.
  intros Hwf Hrun.
  pose proof (with_tempconfig_run strict temp _ w _ _ Hwf
                (exec_sound strict body) Hrun) as Hwith.
  eexists. split; [|split; [|split]].
  - simpl. by rewrite Hwith.
  - eapply (exec_sound strict (SWith temp body)); [exact Hwf|exact Hwith].
  - apply contents_insert_config.
  - intros Hnr.
    apply (exec_no_rebind strict (SWith temp body) w _ _ Hwf Hnr Hwith).
Qed.

(** Line 88 updates whatever object the global name refers to on exit. A
    block that starts by binding the name to another object leaves the
    object that was shared on entry with the overrides in it: the name
    reads the entry values again, the shared object does not. *)
Theorem rebinding_block_strands_shared_object temp (body : @stmt V) w r w' :
  wf w →
  exec strict (SWith temp (SSeq SRebind body)) w = (r, w') →
  config w' ≠ config w
  ∧ heap w' !! config w = Some (contents (inside strict temp w))
  ∧ contents w' = contents w.
Proof.
  intros Hwf Hrun.
  destruct (inside_snapshot strict temp w Hwf) as (_ & _ & _ & Hcfg).
  pose proof (inside_evolves strict temp w Hwf) as Hin.
  pose proof (ev_wf _ _ Hin) as Hwf_in.
  set (w_in := inside strict temp w) in *.
  set (l := fresh (dom (heap w_in))).
  set (w2 := World (<[l := contents w_in]> (heap w_in)) l).
  assert (l ∉ dom (heap w_in)) as Hfresh by apply config_copy_fresh.
  assert (l ≠ config w) as Hne.
  { intros Heq. apply Hfresh. rewrite Heq, <- Hcfg. exact Hwf_in. }
  assert (wf w2) as Hwf2.
  { unfold wf, w2; simpl. rewrite dom_insert_L.
    apply elem_of_union_l, elem_of_singleton. done. }
  destruct (exec strict body w2) as [r3 w3] eqn:Hbody.
  pose proof (exec_sound strict body _ _ _ Hwf2 Hbody) as Hev.
  assert (exec strict (SSeq SRebind body) w_in = (r3, w3)) as Hblock.
  { simpl. unfold bind, config_copy; simpl. exact Hbody. }
  change (exec strict (SWith temp (SSeq SRebind body)))
    with (with_stmt (tempconfig strict temp)
            (exec strict (SSeq SRebind body))) in Hrun.
  rewrite (with_tempconfig_run strict temp _ w _ _ Hwf
             (exec_sound strict (SSeq SRebind body)) Hblock) in Hrun.
  injection Hrun as <- <-. simpl.
  assert (config w ∈ dom (heap w2)) as Hold.
  { unfold w2; simpl. rewrite dom_insert_L, <- Hcfg.
    apply elem_of_union_r. exact Hwf_in. }
  assert (config w3 ≠ config w) as Hne3.
  { destruct (ev_config _ _ Hev) as [Heq|Hnew].
    - rewrite Heq. exact Hne.
    - intros Heq. apply Hnew. by rewrite Heq. }
  split; [done|]. split.
  - rewrite lookup_insert_ne by done.
    rewrite (ev_frame _ _ Hev (config w) Hold) by (simpl; congruence).
    unfold w2; simpl. rewrite lookup_insert_ne by done.
    rewrite <- Hcfg. by apply heap_lookup_contents.
  - apply contents_insert_config.
Qed.

End TempconfigScopes.

(** * Further properties of the module initialization *)

Section StartupFailures.

Context {Logger Console CliCtx Config Frame Ext : Type}.

Implicit Types
  (X : @collaborators Logger Console CliCtx Config Frame Ext)
  (s : @loading Config Ext) (e : exn).

(** Lines 29-32 read [parser["logger"]], [parser["CLI"]] and
    [parser["CLI"]["verbosity"]], in this order, before [make_logger] is
    called: when one of them is missing the load raises the [KeyError] of
    the first one missing, from the state [make_config_parser] left, and
    nothing but [make_config_parser] has been called. *)
Theorem missing_logger_setting_aborts_load X s pr p1 :
  make_config_parser X (proc s) = (Ok pr, p1) →
  pr !! "logger" = None ∨ pr !! "CLI" ≫= (.!! "verbosity") = None →
  module_init X s
  = (Raise (EKey (match pr !! "logger", pr !! "CLI" with
                  | None, _ => "logger"
                  | Some _, None => "CLI"
                  | Some _, Some _ => "verbosity"
                  end)),
     Loading p1 (trace s ++ [EvMakeConfigParser])).
Proof.
  intros Hparse Hmissing.
  unfold module_init, load_logger, bind, call, getitem. rewrite Hparse.
  destruct (pr !! "logger") as [logger_section|]; [|done].
  destruct Hmissing as [?|Hmissing]; [done|].
  destruct (pr !! "CLI") as [cli|]; [|done].
  simpl in Hmissing. by rewrite Hmissing.
Qed.

(** Line 33 reads [parser["CLI_CTX"]] after the logger has been made: when
    the section is missing the load raises its [KeyError] from the state
    [make_logger] left, with [make_logger] the last call made. *)
Theorem missing_cli_ctx_aborts_load_after_logger X s pr handles s2 :
  load_logger X s = (Ok (pr, handles), s2) →
  pr !! "CLI_CTX" = None →
  module_init X s = (Raise (EKey "CLI_CTX"), s2)
  ∧ ∃ logger_section verbosity,
      last (trace s2) = Some (EvMakeLogger logger_section verbosity).
Proof.
  intros Hlog Hmissing. split.
  - unfold module_init. rewrite (bind_ok _ _ _ _ _ Hlog).
    destruct handles as [[logger console] error_console].
    apply bind_raise. unfold load_cli_ctx. apply bind_raise.
    unfold getitem. by rewrite Hmissing.
  - apply load_logger_inv in Hlog
      as (logger_section & cli & verbosity & p1 & p2 & _ & _ & _ & _ & _ & ->).
    exists logger_section, verbosity. simpl.
    change [EvMakeConfigParser; EvMakeLogger logger_section verbosity]
      with ([EvMakeConfigParser : @event Config]
              ++ [EvMakeLogger logger_section verbosity]).
    by rewrite app_assoc, last_snoc.
Qed.

(** Unfolding a load down to the collaborators' answers. *)
Ltac load_cases H :=
  unfold module_init, load_logger, load_cli_ctx, quiet_third_party,
    load_config, load_frame, bind, call, getitem, set_level, ret in H;
  simpl in H;
  repeat match type of H with
         | context [match ?f ?p with _ => _ end] =>
             let r := fresh "r" in
             let q := fresh "q" in
             let E := fresh "E" in
             destruct (f p) as [r q] eqn:E; try destruct r; simpl in H
         | context [match ?m !! ?k with _ => _ end] =>
             let E := fresh "E" in
             destruct (m !! k) eqn:E; simpl in H
         | context [let '(_, _) := ?x in _] => destruct x; simpl in H
         end.

(** Every load, completed or not, makes its calls in source order, none
    twice, starting with [make_config_parser]; a load that completes has
    made them all. *)
Theorem load_calls_in_source_order X s r s' :
  module_init X s = (r, s') →
  ∃ evs, trace s' = trace s ++ evs
         ∧ evs ≠ []
         ∧ callee <$> evs `prefix_of` init_calls
         ∧ (∀ m, r = Ok m → callee <$> evs = init_calls).
Proof.
  intros Hrun. load_cases Hrun;
    injection Hrun as <- <-; simpl;
    rewrite <- ?app_assoc; simpl;
    (eexists; split; [reflexivity|]; split; [done|]; split;
     [eexists; reflexivity | intros m' [=]; reflexivity || done]).
Qed.

(** An error of a load is the [KeyError] of one of the four keys the module
    reads from the parser, or the error one of the collaborators raised,
    passed on as it is with the process state that collaborator left. *)
Theorem load_errors_are_key_errors_or_collaborators X s e s' :
  module_init X s = (Raise e, s') →
  (∃ k, e = EKey k ∧ k ∈ ["logger"; "CLI"; "verbosity"; "CLI_CTX"])
  ∨ (∃ p, make_config_parser X p = (Raise e, proc s'))
  ∨ (∃ a v p, make_logger X a v p = (Raise e, proc s'))
  ∨ (∃ a p, parse_cli_ctx X a p = (Raise e, proc s'))
  ∨ (∃ a p, digest_parser X a p = (Raise e, proc s'))
  ∨ (∃ a p, ManimFrame X a p = (Raise e, proc s')).
Proof.
  intros Hrun. load_cases Hrun; try discriminate Hrun;
    injection Hrun as <- <-; simpl;
    first
      [ left; eexists; split; [reflexivity|]; set_solver
      | right; left; eexists; eassumption
      | do 2 right; left; do 3 eexists; eassumption
      | do 3 right; left; do 2 eexists; eassumption
      | do 4 right; left; do 2 eexists; eassumption
      | do 5 right; do 2 eexists; eassumption ].
Qed.

End StartupFailures.

(** * The further properties at concrete inputs *)

Lemma snapshot_is_isolated_witness :
  wf demo_world
  ∧ tempconfig_enter true demo_temp demo_world
    = (Ok 2%positive, inside true demo_temp demo_world)
  ∧ heap (snd (exec true demo_block (inside true demo_temp demo_world)))
      !! 2%positive
    = Some (contents demo_world).
Proof.
  assert (tempconfig_enter true demo_temp demo_world
          = (Ok 2%positive, inside true demo_temp demo_world)) as Henter.
  { vm_compute. reflexivity. }
  split; [exact demo_world_wf|]. split; [exact Henter|].
  destruct (snapshot_is_isolated true demo_temp demo_world 2%positive
              (inside true demo_temp demo_world) demo_world_wf Henter)
    as (_ & _ & _ & Hkept).
  apply (Hkept demo_block
           (fst (exec true demo_block (inside true demo_temp demo_world)))).
  vm_compute. reflexivity.
Defined.

Lemma overrides_without_known_key_change_nothing_witness :
  wf demo_world
  ∧ dom demo_unknown_temp ## dom (contents demo_world)
  ∧ contents (inside true demo_unknown_temp demo_world) = contents demo_world.
Proof.
  assert (dom demo_unknown_temp ## dom (contents demo_world)) as Hdisj.
  { apply (bool_decide_unpack _). vm_compute. exact I. }
  split; [exact demo_world_wf|]. split; [exact Hdisj|].
  apply (overrides_without_known_key_change_nothing true demo_unknown_temp
           demo_world demo_world_wf Hdisj).
Defined.

Lemma nested_scope_restores_outer_overrides_witness :
  let inner : gmap string pyval := {[ "frame_height" := PyFloat 1.0 ]} in
  let w1 := inside true demo_temp demo_world in
  let w' := snd (exec true (SWith inner demo_failing_block) w1) in
  wf demo_world
  ∧ exec true (SWith inner demo_failing_block) w1
    = (Raise (EUser "ValueError"), w')
  ∧ contents (inside true inner w1) !! "frame_height" = Some (PyFloat 1.0)
  ∧ contents w' !! "frame_height" = Some (PyFloat 100.0)
  ∧ ∃ w'', exec true (SWith demo_temp (SWith inner demo_failing_block))
             demo_world
           = (Raise (EUser "ValueError"), w'')
           ∧ contents w'' = contents demo_world.
Proof.
  intros inner w1 w'.
  assert (exec true (SWith inner demo_failing_block) w1
          = (Raise (EUser "ValueError"), w')) as Hrun.
  { vm_compute. reflexivity. }
  assert ("frame_height" ∈ dom (contents demo_world)) as Hin.
  { apply elem_of_dom. exists (PyFloat 8.0). vm_compute. reflexivity. }
  destruct (nested_scope_restores_outer_overrides true demo_temp inner
              demo_failing_block demo_world _ _ demo_world_wf Hrun)
    as (Hinner & _ & Houter & Hwhole).
  split; [exact demo_world_wf|]. split; [exact Hrun|]. split; [|split].
  - apply Hinner; [vm_compute; reflexivity|exact Hin].
  - apply Houter; [vm_compute; reflexivity|exact Hin].
  - exact Hwhole.
Defined.

Lemma handler_after_scope_sees_entry_values_witness :
  let w1 := snd (exec true demo_failing_block
                   (inside true demo_temp demo_world)) in
  wf demo_world
  ∧ exec true demo_failing_block (inside true demo_temp demo_world)
    = (Raise (EUser "ValueError"), w1)
  ∧ ∃ w2, exec true (STry (SWith demo_temp demo_failing_block) SPass)
            demo_world
          = exec true SPass w2
          ∧ wf w2
          ∧ contents w2 = contents demo_world
          ∧ (no_rebind demo_failing_block = true →
             config w2 = config demo_world).
Proof.
  intros w1.
  assert (exec true demo_failing_block (inside true demo_temp demo_world)
          = (Raise (EUser "ValueError"), w1)) as Hrun.
  { vm_compute. reflexivity. }
  split; [exact demo_world_wf|]. split; [exact Hrun|].
  apply (handler_after_scope_sees_entry_values true demo_temp
           demo_failing_block SPass demo_world (EUser "ValueError") w1
           demo_world_wf Hrun).
Defined.

Lemma rebinding_block_strands_shared_object_witness :
  let w' := snd (exec true (SWith demo_temp demo_rebinding_block)
                   demo_world) in
  wf demo_world
  ∧ exec true (SWith demo_temp demo_rebinding_block) demo_world = (Ok tt, w')
  ∧ config w' ≠ config demo_world
  ∧ heap w' !! config demo_world
    = Some (contents (inside true demo_temp demo_world))
  ∧ contents w' = contents demo_world.
Proof.
  intros w'.
  assert (exec true (SWith demo_temp demo_rebinding_block) demo_world
          = (Ok tt, w')) as Hrun.
  { vm_compute. reflexivity. }
  split; [exact demo_world_wf|]. split; [exact Hrun|].
  apply (rebinding_block_strands_shared_object true demo_temp
           (SSetItem "frame_height" (PyFloat 50.0)) demo_world (Ok tt) w'
           demo_world_wf Hrun).
Defined.

Lemma missing_logger_setting_aborts_load_witness :
  let X := demo_collaborators_around demo_parser_without_cli in
  let s := start demo_process in
  make_config_parser X (proc s) = (Ok demo_parser_without_cli, demo_process)
  ∧ demo_parser_without_cli !! "CLI" ≫= (.!! "verbosity") = None
  ∧ module_init X s
    = (Raise (EKey "CLI"), Loading demo_process [EvMakeConfigParser]).
Proof.
  intros X s.
  assert (make_config_parser X (proc s)
          = (Ok demo_parser_without_cli, demo_process)) as Hparse.
  { reflexivity. }
  assert (demo_parser_without_cli !! "CLI" ≫= (.!! "verbosity") = None)
    as Hmissing.
  { vm_compute. reflexivity. }
  split; [exact Hparse|]. split; [exact Hmissing|].
  apply (missing_logger_setting_aborts_load X s demo_parser_without_cli
           demo_process Hparse (or_intror Hmissing)).
Defined.

Lemma missing_cli_ctx_aborts_load_after_logger_witness :
  let X := demo_collaborators_around demo_parser_without_cli_ctx in
  let s := start demo_process in
  let handles := ("manim", "console", "error_console") in
  let s2 := snd (load_logger X s) in
  load_logger X s = (Ok (demo_parser_without_cli_ctx, handles), s2)
  ∧ demo_parser_without_cli_ctx !! "CLI_CTX" = None
  ∧ module_init X s = (Raise (EKey "CLI_CTX"), s2)
  ∧ log_levels (proc s2) !! "PIL" = None.
Proof.
  intros X s handles s2.
  assert (load_logger X s = (Ok (demo_parser_without_cli_ctx, handles), s2))
    as Hlog.
  { vm_compute. reflexivity. }
  assert (demo_parser_without_cli_ctx !! "CLI_CTX" = None) as Hmissing.
  { vm_compute. reflexivity. }
  split; [exact Hlog|]. split; [exact Hmissing|]. split.
  - apply (missing_cli_ctx_aborts_load_after_logger X s
             demo_parser_without_cli_ctx handles s2 Hlog Hmissing).
  - vm_compute. reflexivity.
Defined.

Lemma load_calls_in_source_order_witness :
  let X := demo_collaborators true false in
  let s := start demo_process in
  let s' := snd (module_init X s) in
  module_init X s = (Raise (EUser "ValueError"), s')
  ∧ ∃ evs, trace s' = trace s ++ evs
           ∧ evs ≠ []
           ∧ callee <$> evs `prefix_of` init_calls.
Proof.
  intros X s s'.
  assert (module_init X s = (Raise (EUser "ValueError"), s')) as Hrun.
  { vm_compute. reflexivity. }
  split; [exact Hrun|].
  destruct (load_calls_in_source_order X s _ s' Hrun)
    as (evs & Htrace & Hne & Hprefix & _).
  exists evs. split; [exact Htrace|]. split; [exact Hne|exact Hprefix].
Defined.

Lemma load_errors_are_key_errors_or_collaborators_witness :
  let X := demo_collaborators true false in
  let s := start demo_process in
  let s' := snd (module_init X s) in
  let e := EUser "ValueError" in
  module_init X s = (Raise e, s')
  ∧ ((∃ k, e = EKey k ∧ k ∈ ["logger"; "CLI"; "verbosity"; "CLI_CTX"])
     ∨ (∃ p, make_config_parser X p = (Raise e, proc s'))
     ∨ (∃ a v p, make_logger X a v p = (Raise e, proc s'))
     ∨ (∃ a p, parse_cli_ctx X a p = (Raise e, proc s'))
     ∨ (∃ a p, digest_parser X a p = (Raise e, proc s'))
     ∨ (∃ a p, ManimFrame X a p = (Raise e, proc s'))).
Proof.
  intros X s s' e.
  assert (module_init X s = (Raise e, s')) as Hrun.
  { vm_compute. reflexivity. }
  split; [exact Hrun|].
  apply (load_errors_are_key_errors_or_collaborators X s e s' Hrun).
Defined.
